(** * klsp: the editor glue of the K language server

    The repository holds three pieces of editor integration and a README:
    - [e/code/s/e.ts]: the VS Code extension ([activate], [deactivate]);
    - [e/vim/example.lua]: the Neovim (lspconfig) registration, repeated
      with one difference in the README;
    - the Emacs (lsp-mode) registration.

    Every snippet is a short sequence of calls into the host editor's
    client library.  The embedding keeps that shape: a snippet is a
    computation in a small monad that threads the host's state, logs each
    library call, and stops at the first call that raises.  Whether a
    library call raises is not decided by this repository, so it is left
    to an oracle [raises]. *)

From stdpp Require Import base strings gmap list.

Open Scope string_scope.
Open Scope list_scope.

(** ** Library calls, exceptions and the log *)

Module Host.

(** A JavaScript/Lua/Lisp exception, identified by its message. *)
Definition exn := string.

Inductive outcome (A : Type) : Type :=
| Returned (a : A)
| Thrown (e : exn).
Arguments Returned {A} a.
Arguments Thrown {A} e.

Section Run.
Context {call host : Type}.

(** What a run leaves behind: how it ended, the host's state, and the
    library calls it made, oldest first. *)
Record run (A : Type) : Type := Run {
  result : outcome A;
  final : host;
  calls : list call;
}.
Arguments Run {A} _ _ _.
Arguments result {A} _.
Arguments final {A} _.
Arguments calls {A} _.

Definition M (A : Type) : Type := host -> run A.

Definition ret {A} (a : A) : M A := fun s => Run (Returned a) s [].

(** Sequencing: an exception ends the run; nothing in the glue code
    has a handler, so there is no combinator that resumes after one. *)
Definition bind {A B} (m : M A) (k : A -> M B) : M B := fun s =>
  match m s with
  | Run (Returned a) s1 l1 =>
      match k a s1 with
      | Run r s2 l2 => Run r s2 (l1 ++ l2)
      end
  | Run (Thrown e) s1 l1 => Run (Thrown e) s1 l1
  end.

(** The library decides by itself whether a call raises. *)
Variable raises : call -> option exn.

(** A library call: it is logged, then either raises or acts on the
    host and returns. *)
Definition invoke {A} (c : call) (effect : host -> A * host) : M A := fun s =>
  match raises c with
  | Some e => Run (Thrown e) s [c]
  | None => let (a, s') := effect s in Run (Returned a) s' [c]
  end.

(** A read of the host's state that is no library call. *)
Definition peek {A} (f : host -> A) : M A := fun s => Run (Returned (f s)) s [].

(** An exception raised by the language runtime itself. *)
Definition throw {A} (e : exn) : M A := fun s => Run (Thrown e) s [].

(** A change of the host's state that is no library call. *)
Definition update (f : host -> host) : M unit := fun s => Run (Returned tt) (f s) [].
End Run.

Arguments Run {call host A} _ _ _.
Arguments result {call host A} _.
Arguments final {call host A} _.
Arguments calls {call host A} _.

(** How a client talks to the server process it configures. *)
Inductive channel : Type := StandardIO | OtherChannel.

(** The library in which no call raises. *)
Definition quiet {call} : call -> option exn := fun _ => None.



End Host.

Import Host.

Declare Scope host_scope.
Notation "x <- c ;; k" := (bind c (fun x => k))
  (at level 100, c at next level, right associativity) : host_scope.
Notation "c ;;; k" := (bind c (fun _ => k))
  (at level 100, right associativity) : host_scope.
Open Scope host_scope.

(** ** The VS Code extension, [e/code/s/e.ts] *)

Module VSCode.

Inductive TransportKind : Type := stdio | ipc | pipe | socket.

(** [Executable] of vscode-languageclient; [args] is optional and the
    extension's literals leave it out. *)
Record Executable : Type := {
  command : option string;
  transport : TransportKind;
  args : option (list string);
}.

Record ServerOptions : Type := {
  run : Executable;
  debug : Executable;
}.

Record DocumentFilter : Type := {
  scheme : option string;
  language : option string;
}.

Inductive FileSystemWatcher : Type := Watcher (globPattern : string).

Record SynchronizeOptions : Type := {
  fileEvents : FileSystemWatcher;
}.

Record LanguageClientOptions : Type := {
  documentSelector : list DocumentFilter;
  synchronize : SynchronizeOptions;
}.

(** A constructed client object; [serial] tells two objects apart. *)
Record LanguageClient : Type := {
  id : string;
  name : string;
  serverOptions : ServerOptions;
  clientOptions : LanguageClientOptions;
  serial : nat;
}.

Inductive Thenable : Type :=
| StartPromise (c : LanguageClient)
| StopPromise (c : LanguageClient).

(** The library calls of the extension. *)
Inductive call : Type :=
| getConfiguration
| get (section : string)
| createFileSystemWatcher (globPattern : string)
| new_LanguageClient (id name : string) (serverOptions : ServerOptions)
    (clientOptions : LanguageClientOptions)
| start (c : LanguageClient)
| stop (c : LanguageClient).

(** The editor session as the extension sees it: the settings, the
    module-level [let client: LanguageClient;] (undefined until it is
    assigned), and how many client objects exist. *)
Record session : Type := {
  settings : gmap string string;
  module_client : option LanguageClient;
  constructed : nat;
}.

(** The extension module right after it is loaded. *)
Definition loaded (cfg : gmap string string) : session :=
  {| settings := cfg; module_client := None; constructed := 0 |}.

Definition construct (i n : string) (so : ServerOptions) (co : LanguageClientOptions)
    (s : session) : LanguageClient * session :=
  ({| id := i; name := n; serverOptions := so; clientOptions := co;
      serial := constructed s |},
   {| settings := settings s; module_client := module_client s;
      constructed := S (constructed s) |}).

Section Extension.
Variable raises : call -> option exn.

(** lines 10-13 *)
Definition make_serverOptions (serverPath : option string) : ServerOptions :=
  {| run := {| command := serverPath; transport := stdio; args := None |};
     debug := {| command := serverPath; transport := stdio; args := None |} |}.

(** lines 15-20 *)
Definition make_clientOptions (w : FileSystemWatcher) : LanguageClientOptions :=
  {| documentSelector := [ {| scheme := Some "file"; language := Some "k" |} ];
     synchronize := {| fileEvents := w |} |}.

(** [activate], lines 7-24.  The [client] bound on line 22 is a
    [const] of the function body: it is a new variable, and the
    module-level [client] is not written. *)
Definition activate : M (call:=call) (host:=session) unit :=
  config <- invoke raises getConfiguration (fun s => (settings s, s)) ;;
  serverPath <- invoke raises (get "klsp.path")
                  (fun s => ((config : gmap string string) !! "klsp.path", s)) ;;
  let serverOptions := make_serverOptions serverPath in
  watcher <- invoke raises (createFileSystemWatcher "**/.clientrc")
               (fun s => (Watcher "**/.clientrc", s)) ;;
  let clientOptions := make_clientOptions watcher in
  client <- invoke raises
              (new_LanguageClient "klsp" "K Language Server" serverOptions clientOptions)
              (construct "klsp" "K Language Server" serverOptions clientOptions) ;;
  invoke raises (start client) (fun s => (StartPromise client, s)) ;;;
  ret tt.

(** [deactivate], lines 26-31: reads the module-level [client]. *)
Definition deactivate : M (call:=call) (host:=session) (option Thenable) :=
  client <- peek module_client ;;
  match client with
  | None => ret None
  | Some c =>
      p <- invoke raises (stop c) (fun s => (StopPromise c, s)) ;;
      ret (Some p)
  end.
End Extension.

(** The name of the library function behind a call. *)
Definition callee (c : call) : string :=
  match c with
  | getConfiguration => "vscode.workspace.getConfiguration"
  | get _ => "WorkspaceConfiguration.get"
  | createFileSystemWatcher _ => "vscode.workspace.createFileSystemWatcher"
  | new_LanguageClient _ _ _ _ => "new LanguageClient"
  | start _ => "LanguageClient.start"
  | stop _ => "LanguageClient.stop"
  end.

Definition is_start (c : call) : bool :=
  match c with start _ => true | _ => false end.

Definition channel_of (t : TransportKind) : channel :=
  match t with stdio => StandardIO | _ => OtherChannel end.

(** The arguments the server process is spawned with.  The client
    library takes the optional [args] of the executable, none when it
    is left out, and appends the flag of the transport: [--stdio], or
    [--pipe=] with the pipe name it generates, or [--socket=] with the
    port; it refuses [ipc] for a command.  [endpoint] is that pipe name
    or port. *)
Definition spawn_args (endpoint : string) (e : Executable) : option (list string) :=
  let given := match args e with Some l => l | None => [] end in
  match transport e with
  | stdio => Some (given ++ [ "--stdio" ])
  | pipe => Some (given ++ [ "--pipe=" +:+ endpoint ])
  | socket => Some (given ++ [ "--socket=" +:+ endpoint ])
  | ipc => None
  end.

(** The calls of an activation that nothing interrupts. *)
Definition activate_script (s : session) : list call :=
  let serverOptions := make_serverOptions (settings s !! "klsp.path") in
  let clientOptions := make_clientOptions (Watcher "**/.clientrc") in
  [ getConfiguration;
    get "klsp.path";
    createFileSystemWatcher "**/.clientrc";
    new_LanguageClient "klsp" "K Language Server" serverOptions clientOptions;
    start (fst (construct "klsp" "K Language Server" serverOptions clientOptions s)) ].

Definition is_get (c : call) : bool :=
  match c with get _ => true | _ => false end.

(** A session in which the setting names a server binary. *)
Definition configured : session :=
  loaded {[ "klsp.path" := "/usr/local/bin/klsp" ]}.

(** A session in which the setting is missing. *)
Definition unconfigured : session := loaded ∅.

End VSCode.

(** ** The Neovim registration, [e/vim/example.lua] and the README *)

Module Neovim.

(** The Lua values a field of the configuration can hold here: [nil],
    a function of a library module, or the entry of the lspconfig
    registry under a name. *)
Inductive value : Type :=
| Nil
| Function (name : string)
| Server (name : string).

(** lspconfig's [cmd] is a list of strings, the command line of a
    process spoken to over its standard streams, or a function that
    builds an RPC client of its own. *)
Inductive cmd_spec : Type :=
| CmdList (argv : list string)
| CmdFunction (name : string).

Record default_config : Type := {
  cmd : cmd_spec;
  cmd_env : list (string * string);
  filetypes : list string;
  root_dir : value;
  single_file_support : bool;
}.

Record config_def : Type := {
  default_config_of : default_config;
}.

(** The editor as the snippet sees it: the functions exported by
    [lspconfig/util]; the table behind [lspconfig.configs], by the
    definition stored under each key; the keys of that table whose
    value is a plain table, written past the metatable, and not a
    server object with a [setup] method; the [setup] calls made so far
    with their user options; and, for each server set up, the
    configuration its autocommand was installed with. *)
Record nvim : Type := {
  util_exports : gmap string string;
  registry : gmap string config_def;
  plain : list string;
  set_up : list (string * list (string * value));
  managers : gmap string default_config;
}.

Inductive call : Type :=
| require (modname : string)
| configs_newindex (name : string) (def : config_def)
| lspconfig_index (name : string)
| setup (name : string) (user_config : list (string * value)).

(** [util.NAME]: a plain field read of the module table. *)
Definition util_field (name : string) (s : nvim) : value :=
  match util_exports s !! name with
  | Some f => Function f
  | None => Nil
  end.

(** [configs.NAME]: a plain field read of the registry; its metatable
    has no [__index], so an absent key reads as [nil]. *)
Definition configs_field (name : string) (s : nvim) : value :=
  match registry s !! name with
  | Some _ => Server name
  | None => Nil
  end.

(** What [__newindex] of the registry does with a definition: it builds
    the server object and stores it under the name. *)
Definition register (name : string) (def : config_def) (s : nvim) : unit * nvim :=
  (tt, {| util_exports := util_exports s;
          registry := <[name := def]> (registry s);
          plain := filter (fun k => k <> name) (plain s);
          set_up := set_up s;
          managers := managers s |}).

(** An assignment to a key the table already has: Lua does not call
    [__newindex] then; the plain table takes the place of what was
    there. *)
Definition overwrite (name : string) (def : config_def) (s : nvim) : nvim :=
  {| util_exports := util_exports s;
     registry := <[name := def]> (registry s);
     plain := name :: plain s;
     set_up := set_up s;
     managers := managers s |}.

(** What [setup] of a server object does: the call is recorded, and
    the autocommand is installed with the server's configuration.  The
    snippets pass no user options, so that configuration is the
    [default_config] of the definition. *)
Definition record_setup (name : string) (user_config : list (string * value))
    (s : nvim) : unit * nvim :=
  (tt, {| util_exports := util_exports s;
          registry := registry s;
          plain := plain s;
          set_up := set_up s ++ [(name, user_config)];
          managers :=
            match registry s !! name with
            | Some def => <[name := default_config_of def]> (managers s)
            | None => managers s
            end |}).

(** What indexing [lspconfig] with a name gives. *)
Inductive entry : Type := Absent | PlainTable | ServerObject.

Definition indexed (name : string) (s : nvim) : entry :=
  match registry s !! name with
  | None => Absent
  | Some _ => if decide (name ∈ plain s) then PlainTable else ServerObject
  end.

Section Snippet.
Variable raises : call -> option exn.

(** Lines 3-11 of [example.lua] with the expression of line 8 left
    open: the two copies of the snippet differ only there. *)
Definition k_definition (root : value) : config_def :=
  {| default_config_of :=
       {| cmd := CmdList [ "PATH_TO_KLSP" ];
          cmd_env := [];
          filetypes := [ "k" ];
          root_dir := root;
          single_file_support := true |} |}.

(** The assignment [configs.k = ...] of line 3: a call of the
    registry's [__newindex] when the key is absent, a plain write
    otherwise. *)
Definition assign_k (def : config_def) : M (call:=call) (host:=nvim) unit := fun s =>
  match registry s !! "k" with
  | None => invoke raises (configs_newindex "k" def) (register "k" def) s
  | Some _ => update (overwrite "k" def) s
  end.

(** Line 12: [require("lspconfig")["k"].setup { }].  Lua raises by
    itself when there is nothing under the name, and when what is there
    has no [setup]. *)
Definition setup_k : M (call:=call) (host:=nvim) unit :=
  invoke raises (require "lspconfig") (fun s => (tt, s)) ;;;
  server <- invoke raises (lspconfig_index "k") (fun s => (indexed "k" s, s)) ;;
  match server with
  | Absent => throw "attempt to index a nil value"
  | PlainTable => throw "attempt to call a nil value (field 'setup')"
  | ServerObject => invoke raises (setup "k" []) (record_setup "k" [])
  end.

(** [e/vim/example.lua] *)
Definition example_lua : M (call:=call) (host:=nvim) unit :=
  invoke raises (require "lspconfig.configs") (fun s => (tt, s)) ;;;
  invoke raises (require "lspconfig/util") (fun s => (tt, s)) ;;;
  root <- peek (util_field "find_git_ancestor") ;;
  assign_k (k_definition root) ;;;
  setup_k.

(** The snippet of the README: line 13 reads [find_git_ancestor] from
    [require('lspconfig.configs')], the registry, and not from [util]. *)
Definition readme_lua : M (call:=call) (host:=nvim) unit :=
  invoke raises (require "lspconfig.configs") (fun s => (tt, s)) ;;;
  invoke raises (require "lspconfig/util") (fun s => (tt, s)) ;;;
  invoke raises (require "lspconfig.configs") (fun s => (tt, s)) ;;;
  root <- peek (configs_field "find_git_ancestor") ;;
  assign_k (k_definition root) ;;;
  setup_k.
End Snippet.

Definition callee (c : call) : string :=
  match c with
  | require _ => "require"
  | configs_newindex _ _ => "lspconfig.configs.__newindex"
  | lspconfig_index _ => "lspconfig.__index"
  | setup _ _ => "setup"
  end.

(** lspconfig spawns [cmd]: the first element is the executable, the
    rest are its arguments. *)
Definition spawn_args (c : default_config) : list string :=
  match cmd c with
  | CmdList argv => tail argv
  | CmdFunction _ => []
  end.

Definition channel_of (c : cmd_spec) : channel :=
  match c with CmdList _ => StandardIO | CmdFunction _ => OtherChannel end.

(** An editor buffer: its file and its file type. *)
Record buffer : Type := {
  bufname : string;
  filetype : string;
}.

(** A client as lspconfig's manager starts it: for the root of a
    workspace, or for one file. *)
Inductive client : Type :=
| Workspace (root : string)
| SingleFile (bufname : string).

(** What lspconfig does for a buffer once [setup] has installed its
    autocommand.  Nothing is started unless the server was set up and
    the buffer's file type is one of the configuration's.  Then the
    client is the one of the root that [root_dir] finds; when it finds
    none, a single-file client is started if [single_file_support] is
    set, and nothing otherwise.  How a [root_dir] value finds a root is
    the library's and the file system's: it is the parameter
    [find_root]. *)
Definition try_add (find_root : value -> buffer -> option string)
    (s : nvim) (name : string) (buf : buffer) : option client :=
  match managers s !! name with
  | None => None
  | Some cfg =>
      if bool_decide (filetype buf ∈ filetypes cfg)
      then
        match find_root (root_dir cfg) buf with
        | Some root => Some (Workspace root)
        | None =>
            if single_file_support cfg then Some (SingleFile (bufname buf)) else None
        end
      else None
  end.

(** The state after the assignment of line 3 and the call of line 12
    on a registry that had nothing under [k]. *)
Definition registered_k (def : config_def) (s : nvim) : nvim :=
  snd (record_setup "k" [] (snd (register "k" def s))).

(** A stock lspconfig: [util] exports the routine, no server is
    registered yet. *)
Definition stock : nvim :=
  {| util_exports := {[ "find_git_ancestor" := "lspconfig.util.find_git_ancestor" ]};
     registry := ∅;
     plain := [];
     set_up := [];
     managers := ∅ |}.

(** Root detection that finds no repository above any file. *)
Definition no_repository (_ : value) (_ : buffer) : option string := None.

Definition scratch_k : buffer := {| bufname := "/tmp/scratch.k"; filetype := "k" |}.

End Neovim.

(** ** The Emacs registration (lsp-mode) *)

Module Emacs.

(** [lsp-stdio-connection] takes the command as one string or as a
    list of strings; the other constructor stands for the network
    connections of lsp-mode. *)
Inductive command : Type :=
| CommandString (program : string)
| CommandList (argv : list string).

Inductive connection : Type :=
| stdio_connection (c : command)
| tcp_connection (c : command).

Record lsp_client : Type := {
  new_connection : connection;
  major_modes : list string;
  server_id : string;
}.

(** The Emacs session: loaded features, the three variables the snippet
    adds to (a void variable counts as the empty list), the installed
    packages, whether the archive contents were fetched, and the
    registered clients by server id.  The last three fields are what
    the session finds on its load path and in its archives: the
    features a file provides before its own when it is loaded, the
    value a file gives [lsp-language-id-configuration] when it defines
    the variable, and the packages a package is installed with. *)
Record emacs : Type := {
  features : list string;
  package_archives : list (string * string);
  initialized : bool;
  installed : list string;
  refreshed : bool;
  lsp_language_id_configuration : list (string * string);
  lsp_clients : gmap string lsp_client;
  k_mode_hook : list string;
  load_provides : string -> list string;
  load_language_ids : string -> list (string * string);
  install_brings : string -> list string;
}.

Inductive call : Type :=
| require (feature : string)
| add_to_list (list_var : string) (element : string * string) (append : bool)
| package_initialize
| package_installed_p (pkg : string)
| package_refresh_contents
| package_install (pkg : string)
| lsp_stdio_connection (c : command)
| make_lsp_client (new_connection : connection) (major_modes : list string) (server_id : string)
| lsp_register_client (client : lsp_client)
| add_hook (hook : string) (function : string).

(** [add-to-list]: nothing when the element is already a member,
    otherwise at the front, or at the end when APPEND is given. *)
Definition added {A} `{EqDecision A} (l : list A) (x : A) (append : bool) : list A :=
  if decide (x ∈ l) then l
  else if append then l ++ [x] else x :: l.

(** Several elements put at the front one after the other, each unless
    it is there already. *)
Definition added_all {A} `{EqDecision A} (l : list A) (xs : list A) : list A :=
  foldl (fun acc x => added acc x false) l xs.

Definition set_features f (s : emacs) : emacs :=
  {| features := f;
     package_archives := package_archives s;
     initialized := initialized s;
     installed := installed s;
     refreshed := refreshed s;
     lsp_language_id_configuration := lsp_language_id_configuration s;
     lsp_clients := lsp_clients s;
     k_mode_hook := k_mode_hook s;
     load_provides := load_provides s;
     load_language_ids := load_language_ids s;
     install_brings := install_brings s |}.

Definition set_package_archives a (s : emacs) : emacs :=
  {| features := features s;
     package_archives := a;
     initialized := initialized s;
     installed := installed s;
     refreshed := refreshed s;
     lsp_language_id_configuration := lsp_language_id_configuration s;
     lsp_clients := lsp_clients s;
     k_mode_hook := k_mode_hook s;
     load_provides := load_provides s;
     load_language_ids := load_language_ids s;
     install_brings := install_brings s |}.

Definition set_initialized b (s : emacs) : emacs :=
  {| features := features s;
     package_archives := package_archives s;
     initialized := b;
     installed := installed s;
     refreshed := refreshed s;
     lsp_language_id_configuration := lsp_language_id_configuration s;
     lsp_clients := lsp_clients s;
     k_mode_hook := k_mode_hook s;
     load_provides := load_provides s;
     load_language_ids := load_language_ids s;
     install_brings := install_brings s |}.

Definition set_installed i (s : emacs) : emacs :=
  {| features := features s;
     package_archives := package_archives s;
     initialized := initialized s;
     installed := i;
     refreshed := refreshed s;
     lsp_language_id_configuration := lsp_language_id_configuration s;
     lsp_clients := lsp_clients s;
     k_mode_hook := k_mode_hook s;
     load_provides := load_provides s;
     load_language_ids := load_language_ids s;
     install_brings := install_brings s |}.

Definition set_refreshed b (s : emacs) : emacs :=
  {| features := features s;
     package_archives := package_archives s;
     initialized := initialized s;
     installed := installed s;
     refreshed := b;
     lsp_language_id_configuration := lsp_language_id_configuration s;
     lsp_clients := lsp_clients s;
     k_mode_hook := k_mode_hook s;
     load_provides := load_provides s;
     load_language_ids := load_language_ids s;
     install_brings := install_brings s |}.

Definition set_language_ids l (s : emacs) : emacs :=
  {| features := features s;
     package_archives := package_archives s;
     initialized := initialized s;
     installed := installed s;
     refreshed := refreshed s;
     lsp_language_id_configuration := l;
     lsp_clients := lsp_clients s;
     k_mode_hook := k_mode_hook s;
     load_provides := load_provides s;
     load_language_ids := load_language_ids s;
     install_brings := install_brings s |}.

Definition set_clients c (s : emacs) : emacs :=
  {| features := features s;
     package_archives := package_archives s;
     initialized := initialized s;
     installed := installed s;
     refreshed := refreshed s;
     lsp_language_id_configuration := lsp_language_id_configuration s;
     lsp_clients := c;
     k_mode_hook := k_mode_hook s;
     load_provides := load_provides s;
     load_language_ids := load_language_ids s;
     install_brings := install_brings s |}.

Definition set_k_mode_hook h (s : emacs) : emacs :=
  {| features := features s;
     package_archives := package_archives s;
     initialized := initialized s;
     installed := installed s;
     refreshed := refreshed s;
     lsp_language_id_configuration := lsp_language_id_configuration s;
     lsp_clients := lsp_clients s;
     k_mode_hook := h;
     load_provides := load_provides s;
     load_language_ids := load_language_ids s;
     install_brings := install_brings s |}.

(** Loading the file of a feature: what the file requires is provided
    first, then the feature; a file that defines
    [lsp-language-id-configuration] gives it its default value unless
    the variable has a value already. *)
Definition load (feature : string) (s : emacs) : emacs :=
  set_language_ids
    (match lsp_language_id_configuration s with
     | [] => load_language_ids s feature
     | l => l
     end)
    (set_features (added_all (features s) (load_provides s feature ++ [ feature ])) s).

(** [require]: nothing when the feature is loaded, its file is loaded
    otherwise. *)
Definition required (feature : string) (s : emacs) : emacs :=
  if decide (feature ∈ features s) then s else load feature s.

(** [package-install]: the package and what it is installed with. *)
Definition install (pkg : string) (s : emacs) : emacs :=
  set_installed (added_all (installed s) (install_brings s pkg ++ [ pkg ])) s.

Section Snippet.
Variable raises : call -> option exn.

Definition require_ (feature : string) : M (call:=call) (host:=emacs) unit :=
  invoke raises (require feature) (fun s => (tt, required feature s)).

(** The snippet, top to bottom.  [unless] on line 6 runs its body
    only when [package-installed-p] answers nil. *)
Definition emacs_snippet : M (call:=call) (host:=emacs) unit :=
  require_ "package" ;;;
  invoke raises (add_to_list "package-archives" ("melpa", "https://melpa.org/packages/") true)
    (fun s => (tt, set_package_archives
                     (added (package_archives s) ("melpa", "https://melpa.org/packages/") true) s)) ;;;
  invoke raises package_initialize (fun s => (tt, set_initialized true s)) ;;;
  present <- invoke raises (package_installed_p "lsp-mode")
               (fun s => (bool_decide ("lsp-mode" ∈ installed s), s)) ;;
  (if present : bool then ret tt
   else
     invoke raises package_refresh_contents (fun s => (tt, set_refreshed true s)) ;;;
     invoke raises (package_install "lsp-mode") (fun s => (tt, install "lsp-mode" s))) ;;;
  require_ "lsp-mode" ;;;
  invoke raises (add_to_list "lsp-language-id-configuration" ("k-language", "k") false)
    (fun s => (tt, set_language_ids
                     (added (lsp_language_id_configuration s) ("k-language", "k") false) s)) ;;;
  conn <- invoke raises (lsp_stdio_connection (CommandString "path-to-klsp-binary"))
            (fun s => (stdio_connection (CommandString "path-to-klsp-binary"), s)) ;;
  client <- invoke raises (make_lsp_client conn [ "k-mode" ] "klsp")
              (fun s => ({| new_connection := conn; major_modes := [ "k-mode" ];
                            server_id := "klsp" |}, s)) ;;
  invoke raises (lsp_register_client client)
    (fun s => (tt, set_clients (<[server_id client := client]> (lsp_clients s)) s)) ;;;
  invoke raises (add_hook "k-mode-hook" "lsp")
    (fun s => (tt, set_k_mode_hook (added (k_mode_hook s) "lsp" false) s)).
End Snippet.

Definition callee (c : call) : string :=
  match c with
  | require _ => "require"
  | add_to_list _ _ _ => "add-to-list"
  | package_initialize => "package-initialize"
  | package_installed_p _ => "package-installed-p"
  | package_refresh_contents => "package-refresh-contents"
  | package_install _ => "package-install"
  | lsp_stdio_connection _ => "lsp-stdio-connection"
  | make_lsp_client _ _ _ => "make-lsp-client"
  | lsp_register_client _ => "lsp-register-client"
  | add_hook _ _ => "add-hook"
  end.

(** The arguments after the program name in the command of a
    connection; a command given as one string is the program alone. *)
Definition spawn_args (c : connection) : list string :=
  match c with
  | stdio_connection (CommandString _) | tcp_connection (CommandString _) => []
  | stdio_connection (CommandList argv) | tcp_connection (CommandList argv) => tail argv
  end.

Definition channel_of (c : connection) : channel :=
  match c with stdio_connection _ => StandardIO | tcp_connection _ => OtherChannel end.

(** The client that lines 12-15 build. *)
Definition klsp_client : lsp_client :=
  {| new_connection := stdio_connection (CommandString "path-to-klsp-binary");
     major_modes := [ "k-mode" ];
     server_id := "klsp" |}.

(** A fresh Emacs with only the default archive.  On its load path
    lsp-mode requires dash and ht and defines the language ids of
    python-mode and rust-mode; in the archives it comes with dash and
    ht. *)
Definition fresh : emacs :=
  {| features := [];
     package_archives := [ ("gnu", "https://elpa.gnu.org/packages/") ];
     initialized := false;
     installed := [];
     refreshed := false;
     lsp_language_id_configuration := [];
     lsp_clients := ∅;
     k_mode_hook := [];
     load_provides := fun f => if decide (f = "lsp-mode") then [ "dash"; "ht" ] else [];
     load_language_ids :=
       fun f => if decide (f = "lsp-mode")
                then [ ("python-mode", "python"); ("rust-mode", "rust") ] else [];
     install_brings := fun p => if decide (p = "lsp-mode") then [ "dash"; "ht" ] else [] |}.


End Emacs.

(** ** The source as a whole *)

Module Glue.


(** A piece of the source as seen from outside: its name, what it is
    run on, and, in a library that raises nothing, whether it comes to
    its end and the library functions it calls, in order. *)
Record program : Type := {
  pname : string;
  pinput : Type;
  pcompletes : pinput -> Prop;
  pcallees : pinput -> list string;
}.












(** What "the command is the binary alone" is for each snippet. *)
Definition neovim_spawns_alone (r : run (call:=Neovim.call) (host:=Neovim.nvim) unit) : Prop :=
  exists def path,
    Neovim.registry (final r) !! "k" = Some def /\
    Neovim.managers (final r) !! "k" = Some (Neovim.default_config_of def) /\
    Neovim.cmd (Neovim.default_config_of def) = Neovim.CmdList [ path ] /\
    Neovim.spawn_args (Neovim.default_config_of def) = [].

Definition emacs_spawns_alone (r : run (call:=Emacs.call) (host:=Emacs.emacs) unit) : Prop :=
  exists client path,
    Emacs.lsp_clients (final r) !! "klsp" = Some client /\
    Emacs.new_connection client = Emacs.stdio_connection (Emacs.CommandString path) /\
    Emacs.spawn_args (Emacs.new_connection client) = [].

(** For VS Code as the claim has it: no [args] and nothing passed. *)
Definition vscode_spawns_alone (r : run (call:=VSCode.call) (host:=VSCode.session) unit) : Prop :=
  exists c,
    VSCode.start c ∈ calls r /\
    VSCode.args (VSCode.run (VSCode.serverOptions c)) = None /\
    VSCode.args (VSCode.debug (VSCode.serverOptions c)) = None /\
    (forall endpoint,
       VSCode.spawn_args endpoint (VSCode.run (VSCode.serverOptions c)) = Some [] /\
       VSCode.spawn_args endpoint (VSCode.debug (VSCode.serverOptions c)) = Some []).

(** For VS Code as the code has it: no [args], and the flag of the
    transport is all that is passed. *)
Definition vscode_spawns_with_stdio_flag
    (r : run (call:=VSCode.call) (host:=VSCode.session) unit) : Prop :=
  exists c,
    VSCode.start c ∈ calls r /\
    VSCode.args (VSCode.run (VSCode.serverOptions c)) = None /\
    VSCode.args (VSCode.debug (VSCode.serverOptions c)) = None /\
    (forall endpoint,
       VSCode.spawn_args endpoint (VSCode.run (VSCode.serverOptions c)) = Some [ "--stdio" ] /\
       VSCode.spawn_args endpoint (VSCode.debug (VSCode.serverOptions c)) = Some [ "--stdio" ]).

End Glue.

(** ** Running the glue more than once, and on any library *)

Module Sessions.

(** A specification of a computation in the style of Hoare: started in a
    state of [P], it ends in [Q] when it returns and in [E] when it
    raises. *)
Definition hoare {call host A} (P : host -> Prop) (m : M (call:=call) (host:=host) A)
    (Q : A -> host -> Prop) (E : host -> Prop) : Prop :=
  forall s, P s ->
    match result (m s) with
    | Returned a => Q a (final (m s))
    | Thrown _ => E (final (m s))
    end.

Definition is_stop (c : VSCode.call) : bool :=
  match c with VSCode.stop _ => true | _ => false end.

Definition is_new (c : VSCode.call) : bool :=
  match c with VSCode.new_LanguageClient _ _ _ _ => true | _ => false end.

(** What the editor asks of the extension module. *)
Inductive request : Type := Activate | Deactivate.

(** The editor calls an exported function and goes on whether it
    returned or raised: the session and the library calls are what is
    left of the call. *)
Definition serve (raises : VSCode.call -> option exn) (q : request)
    (s : VSCode.session) : VSCode.session * list VSCode.call :=
  match q with
  | Activate => (final (VSCode.activate raises s), calls (VSCode.activate raises s))
  | Deactivate => (final (VSCode.deactivate raises s), calls (VSCode.deactivate raises s))
  end.

Fixpoint serve_all (raises : VSCode.call -> option exn) (qs : list request)
    (s : VSCode.session) : VSCode.session * list VSCode.call :=
  match qs with
  | [] => (s, [])
  | q :: qs' =>
      let (s1, l1) := serve raises q s in
      let (s2, l2) := serve_all raises qs' s1 in
      (s2, l1 ++ l2)
  end.

(** [deactivate] called a second time after it returned. *)
Definition deactivate_twice (raises : VSCode.call -> option exn)
  : M (call:=VSCode.call) (host:=VSCode.session) (option VSCode.Thenable) :=
  VSCode.deactivate raises ;;; VSCode.deactivate raises.

(** A session whose module-level variable holds a client. *)
Definition holding : VSCode.session :=
  {| VSCode.settings := ∅;
     VSCode.module_client :=
       Some (fst (VSCode.construct "klsp" "K Language Server"
                    (VSCode.make_serverOptions None)
                    (VSCode.make_clientOptions (VSCode.Watcher "**/.clientrc"))
                    VSCode.unconfigured));
     VSCode.constructed := 1 |}.

(** The Emacs snippet evaluated again on what it left behind. *)
Definition emacs_snippet_twice (raises : Emacs.call -> option exn)
  : M (call:=Emacs.call) (host:=Emacs.emacs) unit :=
  Emacs.emacs_snippet raises ;;; Emacs.emacs_snippet raises.

(** An Emacs in which the snippet has nothing left to do. *)
Definition settled (s : Emacs.emacs) : Prop :=
  "package" ∈ Emacs.features s /\
  "lsp-mode" ∈ Emacs.features s /\
  ("melpa", "https://melpa.org/packages/") ∈ Emacs.package_archives s /\
  Emacs.initialized s = true /\
  "lsp-mode" ∈ Emacs.installed s /\
  ("k-language", "k") ∈ Emacs.lsp_language_id_configuration s /\
  Emacs.lsp_clients s !! "klsp" = Some Emacs.klsp_client /\
  "lsp" ∈ Emacs.k_mode_hook s.



(** A Neovim in which another server is registered and set up. *)
Definition with_other_server : Neovim.nvim :=
  {| Neovim.util_exports := {[ "find_git_ancestor" := "lspconfig.util.find_git_ancestor" ]};
     Neovim.registry := {[ "lua_ls" := Neovim.k_definition Neovim.Nil ]};
     Neovim.plain := [];
     Neovim.set_up := [ ("lua_ls", []) ];
     Neovim.managers :=
       {[ "lua_ls" := Neovim.default_config_of (Neovim.k_definition Neovim.Nil) ]} |}.

End Sessions.

(** * Properties *)

(** ** Exceptions pass through every combinator *)

Section Propagation.
Context {call host : Type}.
Variable raises : call -> option exn.




(** A call that returned has returned what its effect computes. *)
Lemma invoke_returned {A} (c : call) (effect : host -> A * host) (s : host) (a : A) :
  result (invoke raises c effect s) = Returned a ->
  a = fst (effect s) /\ final (invoke raises c effect s) = snd (effect s).
Proof.
  unfold invoke. destruct (raises c); [discriminate|].
  destruct (effect s) as [a' s']. intros [= ->]. done.
Qed.




End Propagation.


(** Reduction of a run: only the record projections of [run], pairs and
    list concatenation are unfolded, so that maps and strings stay as
    they are written. *)
Ltac reduce_run := cbn [result final calls fst snd app].

Ltac split_on raises :=
  repeat match goal with
    | |- context [ raises ?c ] => destruct (raises c) eqn:?; reduce_run
    end.

(** ** The VS Code extension *)

Module VSCodeFacts.
Import VSCode.

Ltac run_activate raises :=
  unfold activate, bind, invoke, ret, construct; reduce_run; split_on raises.

Lemma activate_calls_prefix raises s :
  calls (activate raises s) `prefix_of` activate_script s.
Proof. unfold activate_script. run_activate raises; by eexists. Qed.

Lemma activate_returned raises s :
  result (activate raises s) = Returned tt ->
  calls (activate raises s) = activate_script s.
Proof. unfold activate_script. run_activate raises; intros; done. Qed.

Lemma activate_quiet raises s :
  (forall c, raises c = None) -> result (activate raises s) = Returned tt.
Proof.
  intros Hq. unfold activate, bind, invoke, ret, construct; reduce_run.
  repeat (rewrite Hq; reduce_run). reflexivity.
Qed.

(** No path of [activate] assigns the module-level variable. *)
Lemma activate_module_client raises s :
  module_client (final (activate raises s)) = module_client s.
Proof. run_activate raises; reflexivity. Qed.



Lemma in_activate_script raises s c :
  c ∈ calls (activate raises s) -> c ∈ activate_script s.
Proof.
  intros Hc. destruct (activate_calls_prefix raises s) as [k ->].
  apply elem_of_app. by left.
Qed.

Lemma activate_complete raises s :
  (forall c, raises c = None) ->
  result (activate raises s) = Returned tt /\
  calls (activate raises s) = activate_script s.
Proof.
  intros Hq. pose proof (activate_quiet raises s Hq) as Hr.
  split; [done | by apply activate_returned].
Qed.

(** C1: the claim is that [deactivate] after [activate] stops the
    client.  The code does not: line 22 declares a second, local
    [client], the module-level one stays undefined, and [deactivate]
    takes its early return, whatever the configuration and whatever
    the library does.  It returns [undefined] and calls nothing. *)
Theorem deactivate_after_activate_stops_nothing raises (s : session) :
  module_client s = None ->
  deactivate raises (final (activate raises s))
  = Run (Returned None) (final (activate raises s)) [].
Proof.
  intros Hm. unfold deactivate, bind, peek; reduce_run.
  rewrite activate_module_client, Hm. reflexivity.
Qed.

Lemma deactivate_after_activate_stops_nothing_witness :
  module_client configured = None /\
  result (activate quiet configured) = Returned tt /\
  deactivate quiet (final (activate quiet configured))
  = Run (Returned None) (final (activate quiet configured)) [].
Proof.
  split; [reflexivity|]. split; [reflexivity|].
  apply (deactivate_after_activate_stops_nothing quiet configured). reflexivity.
Defined.

(** C2: when [klsp.path] holds a path and the library calls return,
    [activate] returns, builds one client whose run and debug options
    both use the stdio transport and whose document selector is
    language [k] on the [file] scheme, and calls [start] on that client
    exactly once. *)
Theorem activate_starts_stdio_client_for_k raises (s : session) (p : string) :
  settings s !! "klsp.path" = Some p ->
  (forall c, raises c = None) ->
  let r := activate raises s in
  result r = Returned tt /\
  exists c,
    List.filter is_start (calls r) = [ start c ] /\
    new_LanguageClient (id c) (name c) (serverOptions c) (clientOptions c) ∈ calls r /\
    transport (run (serverOptions c)) = stdio /\
    transport (debug (serverOptions c)) = stdio /\
    documentSelector (clientOptions c)
    = [ {| scheme := Some "file"; language := Some "k" |} ].
Proof.
  intros Hp Hq r. destruct (activate_complete raises s Hq) as [Hr Hc].
  split; [exact Hr|]. subst r. rewrite Hc. unfold activate_script.
  eexists. split; [reflexivity|]. simpl.
  repeat split. set_solver.
Qed.

Lemma activate_starts_stdio_client_for_k_witness :
  settings configured !! "klsp.path" = Some "/usr/local/bin/klsp" /\
  let r := activate quiet configured in
  result r = Returned tt /\
  exists c,
    List.filter is_start (calls r) = [ start c ] /\
    new_LanguageClient (id c) (name c) (serverOptions c) (clientOptions c) ∈ calls r /\
    transport (run (serverOptions c)) = stdio /\
    transport (debug (serverOptions c)) = stdio /\
    documentSelector (clientOptions c)
    = [ {| scheme := Some "file"; language := Some "k" |} ].
Proof.
  split; [reflexivity|].
  apply (activate_starts_stdio_client_for_k quiet configured "/usr/local/bin/klsp");
    [reflexivity | intros c; reflexivity].
Defined.

(** C5: the only setting [activate] reads is [klsp.path], the value
    read is the command of both the run and the debug options of the
    client it starts, and nothing else in the settings changes the
    calls it makes. *)
Theorem server_path_comes_from_klsp_path raises (s : session) :
  (forall c, raises c = None) ->
  let r := activate raises s in
  List.filter is_get (calls r) = [ get "klsp.path" ] /\
  (exists c,
     start c ∈ calls r /\
     command (run (serverOptions c)) = settings s !! "klsp.path" /\
     command (debug (serverOptions c)) = settings s !! "klsp.path") /\
  (forall s' : session,
     settings s' !! "klsp.path" = settings s !! "klsp.path" ->
     constructed s' = constructed s ->
     calls (activate raises s') = calls r).
Proof.
  intros Hq r. subst r.
  destruct (activate_complete raises s Hq) as [_ Hc]. rewrite Hc.
  split; [reflexivity|]. split.
  - eexists. split.
    + unfold activate_script. do 4 apply list_elem_of_further. apply list_elem_of_here.
    + by simpl.
  - intros s' Hp Hn. destruct (activate_complete raises s' Hq) as [_ ->].
    unfold activate_script, construct; simpl. by rewrite Hp, Hn.
Qed.

Lemma server_path_comes_from_klsp_path_witness :
  let r := activate quiet configured in
  List.filter is_get (calls r) = [ get "klsp.path" ] /\
  (exists c,
     start c ∈ calls r /\
     command (run (serverOptions c)) = settings configured !! "klsp.path" /\
     command (debug (serverOptions c)) = settings configured !! "klsp.path") /\
  (forall s' : session,
     settings s' !! "klsp.path" = settings configured !! "klsp.path" ->
     constructed s' = constructed configured ->
     calls (activate quiet s') = calls r).
Proof.
  apply (server_path_comes_from_klsp_path quiet configured).
  intros c; reflexivity.
Defined.

(** C8: when [klsp.path] is not set, [activate] goes through the same
    calls as otherwise: the read gives [undefined], both commands are
    [undefined], and the client is constructed and started. *)
Theorem activate_without_path_still_starts raises (s : session) :
  settings s !! "klsp.path" = None ->
  (forall c, raises c = None) ->
  let r := activate raises s in
  result r = Returned tt /\
  (exists c,
     calls r = [ getConfiguration;
                 get "klsp.path";
                 createFileSystemWatcher "**/.clientrc";
                 new_LanguageClient "klsp" "K Language Server"
                   (serverOptions c) (clientOptions c);
                 start c ] /\
     command (run (serverOptions c)) = None /\
     command (debug (serverOptions c)) = None) /\
  (forall s' : session, map callee (calls (activate raises s')) = map callee (calls r)).
Proof.
  intros Hp Hq r. subst r.
  destruct (activate_complete raises s Hq) as [Hr Hc].
  split; [exact Hr|]. rewrite Hc. split.
  - exists (fst (construct "klsp" "K Language Server"
                   (make_serverOptions (settings s !! "klsp.path"))
                   (make_clientOptions (Watcher "**/.clientrc")) s)).
    split; [reflexivity|]. simpl. by rewrite Hp.
  - intros s'. destruct (activate_complete raises s' Hq) as [_ ->]. reflexivity.
Qed.

Lemma activate_without_path_still_starts_witness :
  settings unconfigured !! "klsp.path" = None /\
  let r := activate quiet unconfigured in
  result r = Returned tt /\
  (exists c,
     calls r = [ getConfiguration;
                 get "klsp.path";
                 createFileSystemWatcher "**/.clientrc";
                 new_LanguageClient "klsp" "K Language Server"
                   (serverOptions c) (clientOptions c);
                 start c ] /\
     command (run (serverOptions c)) = None /\
     command (debug (serverOptions c)) = None) /\
  (forall s' : session,
     map callee (calls (activate quiet s')) = map callee (calls r)).
Proof.
  split; [reflexivity|].
  apply (activate_without_path_still_starts quiet unconfigured);
    [reflexivity | intros c; reflexivity].
Defined.

(** C9: in every client [activate] constructs, the run and the debug
    options are the same value: the [klsp.path] setting as command and
    the stdio transport. *)
Theorem run_and_debug_options_are_equal raises (s : session)
    (i n : string) (so : ServerOptions) (co : LanguageClientOptions) :
  new_LanguageClient i n so co ∈ calls (activate raises s) ->
  run so = debug so /\
  command (run so) = settings s !! "klsp.path" /\
  transport (run so) = stdio.
Proof.
  intros Hc. apply in_activate_script in Hc. unfold activate_script in Hc.
  rewrite !elem_of_cons in Hc.
  destruct Hc as [Hc|[Hc|[Hc|[Hc|[Hc|Hc]]]]]; try discriminate Hc.
  - injection Hc as -> -> -> ->. done.
  - by apply elem_of_nil in Hc.
Qed.

Lemma run_and_debug_options_are_equal_witness :
  let so := make_serverOptions (Some "/usr/local/bin/klsp") in
  let co := make_clientOptions (Watcher "**/.clientrc") in
  new_LanguageClient "klsp" "K Language Server" so co ∈ calls (activate quiet configured) /\
  run so = debug so /\
  command (run so) = settings configured !! "klsp.path" /\
  transport (run so) = stdio.
Proof.
  intros so co.
  assert (new_LanguageClient "klsp" "K Language Server" so co
          ∈ calls (activate quiet configured)) as Hc.
  { do 3 apply list_elem_of_further. apply list_elem_of_here. }
  split; [exact Hc|].
  exact (run_and_debug_options_are_equal quiet configured _ _ so co Hc).
Defined.
End VSCodeFacts.
(** ** Beyond single runs *)

Section HoareRules.
Context {call host : Type}.
Variable raises : call -> option exn.
Import Sessions.

Lemma hoare_ret {A} (P : host -> Prop) (a : A) (Q : A -> host -> Prop) (E : host -> Prop) :
  (forall s, P s -> Q a s) -> hoare P (ret (call:=call) a) Q E.
Proof. intros HQ s HP. by apply HQ. Qed.

Lemma hoare_peek {A} (P : host -> Prop) (f : host -> A) (Q : A -> host -> Prop)
    (E : host -> Prop) :
  (forall s, P s -> Q (f s) s) -> hoare P (peek (call:=call) f) Q E.
Proof. intros HQ s HP. by apply HQ. Qed.

Lemma hoare_throw {A} (P : host -> Prop) (e : exn) (Q : A -> host -> Prop)
    (E : host -> Prop) :
  (forall s, P s -> E s) -> hoare P (throw (call:=call) (A:=A) e) Q E.
Proof. intros HE s HP. by apply HE. Qed.

(** A call that raises leaves the state as it found it. *)
Lemma hoare_invoke {A} (P : host -> Prop) (c : call) (effect : host -> A * host)
    (Q : A -> host -> Prop) (E : host -> Prop) :
  (forall s, P s -> E s) ->
  (forall s, P s -> Q (fst (effect s)) (snd (effect s))) ->
  hoare P (invoke raises c effect) Q E.
Proof.
  intros HE HQ s HP. unfold invoke. destruct (raises c); cbn [result final].
  - by apply HE.
  - specialize (HQ s HP). by destruct (effect s).
Qed.

Lemma hoare_bind {A B} (P : host -> Prop) (m : M (call:=call) (host:=host) A)
    (k : A -> M B) (R : A -> host -> Prop) (Q : B -> host -> Prop) (E : host -> Prop) :
  hoare P m R E -> (forall a, hoare (R a) (k a) Q E) -> hoare P (bind m k) Q E.
Proof.
  intros Hm Hk s HP. specialize (Hm s HP). unfold bind.
  destruct (m s) as [[a|e] s1 l1]; cbn [result final] in *; [|exact Hm].
  specialize (Hk a s1 Hm). by destruct (k a s1) as [r s2 l2].
Qed.
(** Where the first part returns, the run goes on with what follows. *)
Lemma bind_returned {A B} (m : M (call:=call) (host:=host) A) (k : A -> M B)
    (s : host) (a : A) :
  result (m s) = Returned a ->
  bind m k s
  = Run (result (k a (final (m s)))) (final (k a (final (m s))))
      (calls (m s) ++ calls (k a (final (m s)))).
Proof.
  unfold bind. destruct (m s) as [[a'|e] s1 l1]; cbn [result final calls]; [|discriminate].
  intros [= ->]. by destruct (k a s1).
Qed.

Lemma hoare_update (P : host -> Prop) (f : host -> host) (Q : unit -> host -> Prop)
    (E : host -> Prop) :
  (forall s, P s -> Q tt (f s)) -> hoare P (update (call:=call) f) Q E.
Proof. intros HQ s HP. by apply HQ. Qed.

(** Sequencing is associative. *)
Lemma bind_assoc {A B C} (m : M (call:=call) (host:=host) A) (f : A -> M B) (g : B -> M C)
    (s : host) :
  bind (bind m f) g s = bind m (fun a => bind (f a) g) s.
Proof.
  unfold bind. destruct (m s) as [[a|e] s1 l1]; [|reflexivity].
  destruct (f a s1) as [[b|e] s2 l2]; [|reflexivity].
  destruct (g b s2) as [r s3 l3]. by rewrite app_assoc.
Qed.

Lemma hoare_assoc {A B C} (P : host -> Prop) (m : M (call:=call) (host:=host) A)
    (f : A -> M B) (g : B -> M C) (Q : C -> host -> Prop) (E : host -> Prop) :
  hoare P (bind m (fun a => bind (f a) g)) Q E -> hoare P (bind (bind m f) g) Q E.
Proof. intros H s HP. rewrite bind_assoc. by apply H. Qed.

(** Running from one known state: a call either raises there or hands
    its result and the next state to what follows. *)
Lemma hoare_from_invoke {A} (s0 : host) (c : call) (effect : host -> A * host)
    (Q : A -> host -> Prop) (E : host -> Prop) :
  E s0 -> Q (fst (effect s0)) (snd (effect s0)) ->
  hoare (eq s0) (invoke raises c effect) Q E.
Proof. intros HE HQ. apply hoare_invoke; by intros s <-. Qed.

Lemma hoare_from_invoke_bind {A B} (s0 : host) (c : call) (effect : host -> A * host)
    (k : A -> M B) (Q : B -> host -> Prop) (E : host -> Prop) :
  E s0 ->
  hoare (eq (snd (effect s0))) (k (fst (effect s0))) Q E ->
  hoare (eq s0) (bind (invoke raises c effect) k) Q E.
Proof.
  intros HE Hk.
  apply hoare_bind with (R := fun a s => a = fst (effect s0) /\ s = snd (effect s0)).
  - apply hoare_invoke; by intros s <-.
  - intros a s [-> ->]. by apply Hk.
Qed.

Lemma hoare_from_ret_bind {A B} (s0 : host) (a : A) (k : A -> M B)
    (Q : B -> host -> Prop) (E : host -> Prop) :
  hoare (eq s0) (k a) Q E -> hoare (eq s0) (bind (ret (call:=call) a) k) Q E.
Proof.
  intros Hk. apply hoare_bind with (R := fun a' s => a' = a /\ s = s0).
  - apply hoare_ret. by intros s <-.
  - intros a' s [-> ->]. by apply Hk.
Qed.

Lemma hoare_from_peek_bind {A B} (s0 : host) (f : host -> A) (k : A -> M B)
    (Q : B -> host -> Prop) (E : host -> Prop) :
  hoare (eq s0) (k (f s0)) Q E -> hoare (eq s0) (bind (peek (call:=call) f) k) Q E.
Proof.
  intros Hk. apply hoare_bind with (R := fun a s => a = f s0 /\ s = s0).
  - apply hoare_peek. by intros s <-.
  - intros a s [-> ->]. by apply Hk.
Qed.

Lemma hoare_from_update_bind {B} (s0 : host) (f : host -> host) (k : unit -> M B)
    (Q : B -> host -> Prop) (E : host -> Prop) :
  hoare (eq (f s0)) (k tt) Q E -> hoare (eq s0) (bind (update (call:=call) f) k) Q E.
Proof.
  intros Hk. apply hoare_bind with (R := fun u s => u = tt /\ s = f s0).
  - apply hoare_update. by intros s <-.
  - intros u s [-> ->]. by apply Hk.
Qed.

Lemma hoare_from_throw {A} (s0 : host) (e : exn) (Q : A -> host -> Prop) (E : host -> Prop) :
  E s0 -> hoare (eq s0) (throw (call:=call) (A:=A) e) Q E.
Proof. intros HE. apply hoare_throw. by intros s <-. Qed.

(** From one state, only what the first part does there matters. *)
Lemma hoare_from_same {A B} (s0 : host) (m m' : M (call:=call) (host:=host) A)
    (k : A -> M B) (Q : B -> host -> Prop) (E : host -> Prop) :
  m s0 = m' s0 -> hoare (eq s0) (bind m' k) Q E -> hoare (eq s0) (bind m k) Q E.
Proof.
  intros Hsame H s <-. specialize (H s0 eq_refl). unfold bind in *. by rewrite Hsame.
Qed.

(** What a triple says of one run. *)
Lemma hoare_run {A} (s0 : host) (m : M (call:=call) (host:=host) A)
    (Q : A -> host -> Prop) (E : host -> Prop) :
  hoare (eq s0) m Q E ->
  match result (m s0) with
  | Returned a => Q a (final (m s0))
  | Thrown _ => E (final (m s0))
  end.
Proof. intros H. by apply H. Qed.
End HoareRules.

(** Symbolic execution from a known state: one goal for the state in
    which each call may raise, one for the state at the end. *)
Ltac execute :=
  repeat first
    [ apply hoare_assoc
    | apply hoare_from_invoke_bind; [ | cbn [fst snd] ]
    | apply hoare_from_ret_bind
    | apply hoare_from_peek_bind; cbn [fst snd]
    | apply hoare_from_update_bind
    | apply hoare_from_throw
    | apply hoare_from_invoke; cbn [fst snd]
    | match goal with
      | |- Sessions.hoare _ (bind (if ?b then _ else _) _) _ _ => destruct b eqn:?
      | |- Sessions.hoare _ (if ?b then _ else _) _ _ => destruct b eqn:?
      | |- Sessions.hoare _ (match ?o with Some _ => _ | None => _ end) _ _ =>
          destruct o eqn:?
      end ].

(** ** The Neovim registration *)

Module NeovimFacts.
Import Neovim Sessions.

Ltac reduce_lua :=
  cbn [result final calls fst snd app register overwrite record_setup registered_k
       util_exports registry plain set_up managers] in *.

Lemma indexed_register def s : indexed "k" (snd (register "k" def s)) = ServerObject.
Proof.
  unfold indexed, register; cbn [snd registry plain]. rewrite lookup_insert_eq.
  rewrite decide_False; [done|]. rewrite list_elem_of_filter. tauto.
Qed.

Lemma indexed_overwrite def s : indexed "k" (overwrite "k" def s) = PlainTable.
Proof.
  unfold indexed, overwrite; cbn [registry plain]. rewrite lookup_insert_eq.
  rewrite decide_True; [done | apply list_elem_of_here].
Qed.

Lemma assign_k_fresh raises def s :
  registry s !! "k" = None ->
  assign_k raises def s = invoke raises (configs_newindex "k" def) (register "k" def) s.
Proof. intros Hk. unfold assign_k. by rewrite Hk. Qed.

Lemma assign_k_present raises def s :
  is_Some (registry s !! "k") -> assign_k raises def s = update (overwrite "k" def) s.
Proof. intros [old Hk]. unfold assign_k. by rewrite Hk. Qed.

(** Line 12 after a first assignment: the server is found and set up. *)
Lemma setup_k_after_register raises def s :
  (forall c, raises c = None) ->
  setup_k raises (snd (register "k" def s))
  = Run (Returned tt) (registered_k def s)
      [ require "lspconfig"; lspconfig_index "k"; setup "k" [] ].
Proof.
  intros Hq. unfold setup_k, bind, invoke. rewrite !Hq.
  cbn [result final calls fst snd]. rewrite indexed_register. reflexivity.
Qed.

(** Line 12 after an assignment over an entry: there is no [setup]. *)
Lemma setup_k_after_overwrite raises def s :
  (forall c, raises c = None) ->
  setup_k raises (overwrite "k" def s)
  = Run (Thrown "attempt to call a nil value (field 'setup')") (overwrite "k" def s)
      [ require "lspconfig"; lspconfig_index "k" ].
Proof.
  intros Hq. unfold setup_k, bind, invoke. rewrite !Hq.
  cbn [result final calls fst snd]. by rewrite indexed_overwrite.
Qed.

(** The run of [example.lua] where [k] is not registered yet and every
    call returns. *)
Lemma example_lua_fresh raises s :
  (forall c, raises c = None) ->
  registry s !! "k" = None ->
  example_lua raises s
  = Run (Returned tt) (registered_k (k_definition (util_field "find_git_ancestor" s)) s)
      [ require "lspconfig.configs"; require "lspconfig/util";
        configs_newindex "k" (k_definition (util_field "find_git_ancestor" s));
        require "lspconfig"; lspconfig_index "k"; setup "k" [] ].
Proof.
  intros Hq Hk. unfold example_lua, bind, invoke at 1 2, peek. rewrite !Hq.
  cbn [result final calls fst snd]. rewrite (assign_k_fresh _ _ _ Hk).
  unfold invoke at 1. rewrite Hq. cbn [result final calls fst snd].
  change (snd (register "k" ?d s)) with (snd (register "k" d s)).
  destruct (register "k" (k_definition (util_field "find_git_ancestor" s)) s) as [u s1] eqn:Hreg.
  assert (s1 = snd (register "k" (k_definition (util_field "find_git_ancestor" s)) s)) as ->
    by (by rewrite Hreg).
  by rewrite (setup_k_after_register raises _ s Hq).
Qed.

Lemma readme_lua_fresh raises s :
  (forall c, raises c = None) ->
  registry s !! "k" = None ->
  readme_lua raises s
  = Run (Returned tt) (registered_k (k_definition (configs_field "find_git_ancestor" s)) s)
      [ require "lspconfig.configs"; require "lspconfig/util"; require "lspconfig.configs";
        configs_newindex "k" (k_definition (configs_field "find_git_ancestor" s));
        require "lspconfig"; lspconfig_index "k"; setup "k" [] ].
Proof.
  intros Hq Hk. unfold readme_lua, bind, invoke at 1 2 3, peek. rewrite !Hq.
  cbn [result final calls fst snd]. rewrite (assign_k_fresh _ _ _ Hk).
  unfold invoke at 1. rewrite Hq. cbn [result final calls fst snd].
  destruct (register "k" (k_definition (configs_field "find_git_ancestor" s)) s) as [u s1] eqn:Hreg.
  assert (s1 = snd (register "k" (k_definition (configs_field "find_git_ancestor" s)) s)) as ->
    by (by rewrite Hreg).
  by rewrite (setup_k_after_register raises _ s Hq).
Qed.


Lemma readme_lua_again raises s :
  (forall c, raises c = None) ->
  is_Some (registry s !! "k") ->
  readme_lua raises s
  = Run (Thrown "attempt to call a nil value (field 'setup')")
      (overwrite "k" (k_definition (configs_field "find_git_ancestor" s)) s)
      [ require "lspconfig.configs"; require "lspconfig/util"; require "lspconfig.configs";
        require "lspconfig"; lspconfig_index "k" ].
Proof.
  intros Hq Hk. unfold readme_lua, bind, invoke at 1 2 3, peek. rewrite !Hq.
  cbn [result final calls fst snd]. rewrite (assign_k_present _ _ _ Hk).
  unfold update. by rewrite (setup_k_after_overwrite raises _ s Hq).
Qed.

Lemma registered_k_lookup def s : registry (registered_k def s) !! "k" = Some def.
Proof. unfold registered_k, record_setup, register; cbn [snd registry]. apply lookup_insert_eq. Qed.

Lemma registered_k_manager def s :
  managers (registered_k def s) !! "k" = Some (default_config_of def).
Proof.
  unfold registered_k, record_setup, register; cbn [snd registry managers].
  rewrite lookup_insert_eq. apply lookup_insert_eq.
Qed.







(** In [example.lua] the registered [root_dir] is the routine that
    [lspconfig/util] exports as [find_git_ancestor]. *)
Lemma example_root_dir_is_find_git_ancestor raises (s : nvim) (f : string) :
  util_exports s !! "find_git_ancestor" = Some f ->
  (forall c, raises c = None) ->
  registry s !! "k" = None ->
  root_dir <$> (default_config_of <$> registry (final (example_lua raises s)) !! "k")
  = Some (Function f).
Proof.
  intros Hf Hq Hk. rewrite (example_lua_fresh raises s Hq Hk). cbn [final].
  rewrite registered_k_lookup. cbn. unfold util_field. by rewrite Hf.
Qed.

(** C6: the claim is that the registration's [root_dir] is the
    [find_git_ancestor] routine.  [example.lua] does that; the README's
    copy reads the field from the registry module instead, so what it
    registers is whatever the registry holds under that name (nothing,
    in a stock lspconfig) and never the routine of [util]. *)
Theorem readme_root_dir_is_not_find_git_ancestor raises (s : nvim) (f : string) :
  util_exports s !! "find_git_ancestor" = Some f ->
  (forall c, raises c = None) ->
  let r := readme_lua raises s in
  (registry s !! "k" = None -> result r = Returned tt) /\
  exists def,
    registry (final r) !! "k" = Some def /\
    root_dir (default_config_of def) = configs_field "find_git_ancestor" s /\
    root_dir (default_config_of def) <> Function f /\
    (registry s !! "find_git_ancestor" = None -> root_dir (default_config_of def) = Nil).
Proof.
  intros Hf Hq r. subst r.
  assert (forall s' : nvim,
            registry s' !! "k" = Some (k_definition (configs_field "find_git_ancestor" s)) ->
            exists def,
              registry s' !! "k" = Some def /\
              root_dir (default_config_of def) = configs_field "find_git_ancestor" s /\
              root_dir (default_config_of def) <> Function f /\
              (registry s !! "find_git_ancestor" = None ->
               root_dir (default_config_of def) = Nil)) as Hdef.
  { intros s' Hs'. eexists. split; [exact Hs'|].
    cbn [k_definition default_config_of root_dir]. unfold configs_field.
    destruct (registry s !! "find_git_ancestor"); repeat split; done. }
  destruct (registry s !! "k") as [old|] eqn:Hk.
  - rewrite (readme_lua_again raises s Hq) by (by rewrite Hk). cbn [result final].
    split; [done|]. apply Hdef. unfold overwrite. cbn [registry]. apply lookup_insert_eq.
  - rewrite (readme_lua_fresh raises s Hq Hk). cbn [result final].
    split; [done|]. apply Hdef, registered_k_lookup.
Qed.

Lemma readme_root_dir_is_not_find_git_ancestor_witness :
  util_exports stock !! "find_git_ancestor" = Some "lspconfig.util.find_git_ancestor" /\
  let r := readme_lua quiet stock in
  (registry stock !! "k" = None -> result r = Returned tt) /\
  exists def,
    registry (final r) !! "k" = Some def /\
    root_dir (default_config_of def) = configs_field "find_git_ancestor" stock /\
    root_dir (default_config_of def) <> Function "lspconfig.util.find_git_ancestor" /\
    (registry stock !! "find_git_ancestor" = None -> root_dir (default_config_of def) = Nil).
Proof.
  split; [reflexivity|].
  apply (readme_root_dir_is_not_find_git_ancestor quiet stock);
    [reflexivity | intros c; reflexivity].
Defined.

(** Without [single_file_support] a buffer with no root gets no client. *)
Lemma try_add_needs_single_file_support find_root s name buf cfg :
  managers s !! name = Some cfg ->
  find_root (root_dir cfg) buf = None ->
  single_file_support cfg = false ->
  try_add find_root s name buf = None.
Proof.
  intros Hm Hroot Hsingle. unfold try_add. rewrite Hm, Hroot, Hsingle.
  by destruct (bool_decide _).
Qed.

(** C10: either copy, sourced where [k] is not registered yet and in a
    library whose calls return, registers [k] with
    [single_file_support = true] and sets it up; before that lspconfig
    starts nothing for a [k] buffer, after it a [k] buffer for which
    the root detection finds nothing gets a single-file client. *)
Theorem single_file_support_starts_client
    (find_root : value -> buffer -> option string)
    raises (s : nvim) (snippet : M unit) (buf : buffer) :
  snippet = example_lua raises \/ snippet = readme_lua raises ->
  (forall c, raises c = None) ->
  registry s !! "k" = None ->
  managers s !! "k" = None ->
  filetype buf = "k" ->
  result (snippet s) = Returned tt /\
  try_add find_root s "k" buf = None /\
  exists def,
    registry (final (snippet s)) !! "k" = Some def /\
    single_file_support (default_config_of def) = true /\
    managers (final (snippet s)) !! "k" = Some (default_config_of def) /\
    (find_root (root_dir (default_config_of def)) buf = None ->
     try_add find_root (final (snippet s)) "k" buf = Some (SingleFile (bufname buf))).
Proof.
  intros Hsnippet Hq Hk Hm Hft.
  assert (exists root calls, snippet s = Run (Returned tt) (registered_k (k_definition root) s) calls)
    as (root & l & Hrun).
  { destruct Hsnippet as [-> | ->].
    - eexists _, _. apply (example_lua_fresh raises s Hq Hk).
    - eexists _, _. apply (readme_lua_fresh raises s Hq Hk). }
  rewrite Hrun. cbn [result final]. split; [reflexivity|].
  split; [unfold try_add; by rewrite Hm|].
  exists (k_definition root). split; [apply registered_k_lookup|].
  split; [reflexivity|]. split; [apply registered_k_manager|].
  intros Hroot. unfold try_add. rewrite registered_k_manager.
  cbn [k_definition default_config_of filetypes single_file_support root_dir] in *.
  rewrite Hroot, Hft. rewrite bool_decide_eq_true_2; [done | apply list_elem_of_here].
Qed.

Lemma single_file_support_starts_client_witness :
  registry stock !! "k" = None /\
  managers stock !! "k" = None /\
  filetype scratch_k = "k" /\
  result (example_lua quiet stock) = Returned tt /\
  try_add no_repository stock "k" scratch_k = None /\
  exists def,
    registry (final (example_lua quiet stock)) !! "k" = Some def /\
    single_file_support (default_config_of def) = true /\
    managers (final (example_lua quiet stock)) !! "k" = Some (default_config_of def) /\
    (no_repository (root_dir (default_config_of def)) scratch_k = None ->
     try_add no_repository (final (example_lua quiet stock)) "k" scratch_k
     = Some (SingleFile (bufname scratch_k))).
Proof.
  split; [reflexivity|]. split; [reflexivity|]. split; [reflexivity|].
  apply (single_file_support_starts_client no_repository quiet stock
           (example_lua quiet) scratch_k);
    [left; reflexivity | intros c; reflexivity | reflexivity | reflexivity | reflexivity].
Defined.
End NeovimFacts.

(** ** The Emacs registration *)

Module EmacsFacts.
Import Emacs Sessions.

Lemma elem_added {A} `{EqDecision A} (l : list A) (x y : A) (append : bool) :
  y ∈ added l x append <-> y = x \/ y ∈ l.
Proof.
  unfold added. destruct (decide (x ∈ l)) as [Hx|_]; [|destruct append].
  - split; [by right | by intros [->|Hy]].
  - rewrite elem_of_app, list_elem_of_singleton. tauto.
  - apply elem_of_cons.
Qed.

Lemma added_elem {A} `{EqDecision A} (l : list A) (x : A) (append : bool) :
  x ∈ added l x append.
Proof. apply elem_added. by left. Qed.

Lemma added_keeps {A} `{EqDecision A} (l : list A) (x y : A) (append : bool) :
  y ∈ l -> y ∈ added l x append.
Proof. intros Hy. apply elem_added. by right. Qed.

Lemma added_of_elem {A} `{EqDecision A} (l : list A) (x : A) (append : bool) :
  x ∈ l -> added l x append = l.
Proof. intros Hx. unfold added. by destruct (decide (x ∈ l)). Qed.


Lemma added_suffix {A} `{EqDecision A} (l : list A) (x : A) :
  l `suffix_of` added l x false.
Proof.
  unfold added. destruct (decide (x ∈ l)); [done|]. by apply suffix_cons_r.
Qed.

Lemma elem_added_all {A} `{EqDecision A} (xs l : list A) (y : A) :
  y ∈ added_all l xs <-> y ∈ xs \/ y ∈ l.
Proof.
  unfold added_all. revert l. induction xs as [|x xs IH]; intros l; cbn [foldl].
  - rewrite elem_of_nil. tauto.
  - rewrite IH, elem_added, elem_of_cons. tauto.
Qed.

Lemma added_all_suffix {A} `{EqDecision A} (xs l : list A) :
  l `suffix_of` added_all l xs.
Proof.
  unfold added_all. revert l. induction xs as [|x xs IH]; intros l; cbn [foldl]; [done|].
  etrans; [apply (added_suffix l x) | apply IH].
Qed.

(** What [require] and [package-install] leave alone. *)
Lemma required_package_archives f s : package_archives (required f s) = package_archives s.
Proof. unfold required. by destruct (decide _). Qed.

Lemma required_initialized f s : initialized (required f s) = initialized s.
Proof. unfold required. by destruct (decide _). Qed.

Lemma required_installed f s : installed (required f s) = installed s.
Proof. unfold required. by destruct (decide _). Qed.

Lemma required_refreshed f s : refreshed (required f s) = refreshed s.
Proof. unfold required. by destruct (decide _). Qed.

Lemma required_lsp_clients f s : lsp_clients (required f s) = lsp_clients s.
Proof. unfold required. by destruct (decide _). Qed.

Lemma required_k_mode_hook f s : k_mode_hook (required f s) = k_mode_hook s.
Proof. unfold required. by destruct (decide _). Qed.

Lemma install_features p s : features (install p s) = features s.
Proof. reflexivity. Qed.

Lemma install_package_archives p s : package_archives (install p s) = package_archives s.
Proof. reflexivity. Qed.

Lemma install_lsp_clients p s : lsp_clients (install p s) = lsp_clients s.
Proof. reflexivity. Qed.

Lemma install_k_mode_hook p s : k_mode_hook (install p s) = k_mode_hook s.
Proof. reflexivity. Qed.

Lemma install_language_ids p s :
  lsp_language_id_configuration (install p s) = lsp_language_id_configuration s.
Proof. reflexivity. Qed.

Lemma required_load_language_ids f s : load_language_ids (required f s) = load_language_ids s.
Proof. unfold required. by destruct (decide _). Qed.

Lemma install_installed_env p s : load_language_ids (install p s) = load_language_ids s.
Proof. reflexivity. Qed.

(** What they add. *)
Lemma required_provides f s : f ∈ features (required f s).
Proof.
  unfold required. destruct (decide (f ∈ features s)) as [Hf|_]; [exact Hf|].
  unfold load; cbn [features set_language_ids set_features].
  apply elem_added_all. left. apply elem_of_app. right. apply list_elem_of_here.
Qed.

Lemma required_keeps_features f s x : x ∈ features s -> x ∈ features (required f s).
Proof.
  intros Hx. unfold required. destruct (decide (f ∈ features s)); [exact Hx|].
  unfold load; cbn [features set_language_ids set_features].
  apply elem_added_all. by right.
Qed.

Lemma required_features_suffix f s : features s `suffix_of` features (required f s).
Proof.
  unfold required. destruct (decide (f ∈ features s)); [done|].
  unfold load; cbn [features set_language_ids set_features]. apply added_all_suffix.
Qed.

Lemma required_keeps_language_ids f s p :
  p ∈ lsp_language_id_configuration s ->
  p ∈ lsp_language_id_configuration (required f s).
Proof.
  intros Hp. unfold required. destruct (decide (f ∈ features s)); [exact Hp|].
  unfold load; cbn [lsp_language_id_configuration set_language_ids set_features].
  destruct (lsp_language_id_configuration s); [by apply elem_of_nil in Hp | exact Hp].
Qed.

(** The ids after [require] are those before, or those the loaded file
    gives the variable. *)
Lemma required_language_ids_from f s p :
  p ∈ lsp_language_id_configuration (required f s) ->
  p ∈ lsp_language_id_configuration s \/ p ∈ load_language_ids s f.
Proof.
  unfold required. destruct (decide (f ∈ features s)); [by left|].
  unfold load; cbn [lsp_language_id_configuration set_language_ids set_features
                    load_language_ids].
  destruct (lsp_language_id_configuration s); [by right | by left].
Qed.

Lemma required_loaded f s : f ∈ features s -> required f s = s.
Proof. intros Hf. unfold required. by rewrite decide_True. Qed.

Lemma install_installs p s : p ∈ installed (install p s).
Proof.
  unfold install; cbn [installed set_installed].
  apply elem_added_all. left. apply elem_of_app. right. apply list_elem_of_here.
Qed.


Lemma install_keeps_installed p s x : x ∈ installed s -> x ∈ installed (install p s).
Proof.
  intros Hx. unfold install; cbn [installed set_installed]. apply elem_added_all. by right.
Qed.

Ltac reduce_emacs :=
  cbn [result final calls fst snd app
       set_features set_package_archives set_initialized set_installed set_refreshed
       set_language_ids set_clients set_k_mode_hook
       features package_archives initialized installed refreshed
       lsp_language_id_configuration lsp_clients k_mode_hook server_id
       load_provides load_language_ids install_brings] in *.

Ltac tidy_emacs :=
  reduce_emacs;
  repeat (progress
    (rewrite ?required_package_archives, ?required_initialized, ?required_installed,
       ?required_refreshed, ?required_lsp_clients, ?required_k_mode_hook,
       ?install_features, ?install_package_archives, ?install_lsp_clients,
       ?install_k_mode_hook, ?install_language_ids, ?required_load_language_ids,
       ?install_installed_env in *;
     reduce_emacs)).

(** In a library where nothing raises the snippet runs to its end, and
    then there is nothing left for it to do; the client registry has
    the client under [klsp] and is otherwise as before. *)
Lemma emacs_snippet_complete raises s :
  (forall c, raises c = None) ->
  let r := emacs_snippet raises s in
  result r = Returned tt /\
  settled (final r) /\
  lsp_clients (final r) = <[ "klsp" := klsp_client ]> (lsp_clients s).
Proof.
  intros Hq. unfold emacs_snippet, require_, bind, invoke, ret, settled; reduce_emacs.
  repeat (rewrite Hq; reduce_emacs).
  destruct (bool_decide ("lsp-mode" ∈ installed (required "package" s))) eqn:Hin;
    reduce_emacs; repeat (rewrite Hq; reduce_emacs); tidy_emacs;
    (split; [reflexivity|]); (split; [|reflexivity]).
  - apply bool_decide_eq_true_1 in Hin.
    repeat split; first
      [ apply required_keeps_features; tidy_emacs; apply required_provides
      | apply required_provides | apply added_elem | exact Hin | apply lookup_insert_eq ].
  - repeat split; first
      [ apply required_keeps_features; tidy_emacs; apply required_provides
      | apply required_provides | apply added_elem | apply install_installs
      | apply lookup_insert_eq ].
Qed.

Lemma emacs_snippet_quiet raises s :
  (forall c, raises c = None) -> result (emacs_snippet raises s) = Returned tt.
Proof. intros Hq. apply (emacs_snippet_complete raises s Hq). Qed.


(** The calls of a run in a library where nothing raises: the two of
    the [unless] body appear exactly when lsp-mode is not installed. *)
Lemma emacs_snippet_callees_of raises s :
  (forall c, raises c = None) ->
  map callee (calls (emacs_snippet raises s))
  = [ "require"; "add-to-list"; "package-initialize"; "package-installed-p" ]
    ++ (if bool_decide ("lsp-mode" ∈ installed s) then []
        else [ "package-refresh-contents"; "package-install" ])
    ++ [ "require"; "add-to-list"; "lsp-stdio-connection"; "make-lsp-client";
         "lsp-register-client"; "add-hook" ].
Proof.
  intros Hq. unfold emacs_snippet, require_, bind, invoke, ret; reduce_emacs.
  repeat (rewrite Hq; reduce_emacs). tidy_emacs.
  destruct (bool_decide _); reduce_emacs; repeat (rewrite Hq; reduce_emacs); reflexivity.
Qed.


(** Where nothing is left to do, a run changes nothing. *)
Lemma emacs_snippet_settled raises s :
  (forall c, raises c = None) ->
  settled s ->
  final (emacs_snippet raises s) = s.
Proof.
  intros Hq (Hpackage & Hlsp & Hmelpa & Hinit & Hinst & Hid & Hclient & Hhook).
  destruct s as [f a i ins r ids cl h lp ll ib]. reduce_emacs. subst i.
  unfold emacs_snippet, require_, bind, invoke, ret; reduce_emacs.
  repeat (rewrite Hq; reduce_emacs).
  rewrite !required_loaded by done. reduce_emacs.
  rewrite (added_of_elem a) by done.
  rewrite (bool_decide_eq_true_2 _ Hinst). reduce_emacs.
  repeat (rewrite Hq; reduce_emacs).
  rewrite !required_loaded by done. reduce_emacs.
  repeat (rewrite Hq; reduce_emacs).
  rewrite (added_of_elem ids), (added_of_elem h) by done.
  by rewrite (insert_id cl "klsp" klsp_client Hclient).
Qed.
End EmacsFacts.

(** ** The three snippets side by side *)

Module GlueFacts.
Import Glue.








Lemma lua_registered raises s (snippet : M unit) :
  snippet = Neovim.example_lua raises \/ snippet = Neovim.readme_lua raises ->
  (forall c, raises c = None) ->
  Neovim.registry s !! "k" = None ->
  exists root calls,
    snippet s = Run (Returned tt) (Neovim.registered_k (Neovim.k_definition root) s) calls.
Proof.
  intros [-> | ->] Hq Hk.
  - eexists _, _. apply (NeovimFacts.example_lua_fresh raises s Hq Hk).
  - eexists _, _. apply (NeovimFacts.readme_lua_fresh raises s Hq Hk).
Qed.

Lemma started_client raises s :
  (forall c, raises c = None) ->
  let c := fst (VSCode.construct "klsp" "K Language Server"
                  (VSCode.make_serverOptions (VSCode.settings s !! "klsp.path"))
                  (VSCode.make_clientOptions (VSCode.Watcher "**/.clientrc")) s) in
  VSCode.new_LanguageClient (VSCode.id c) (VSCode.name c)
    (VSCode.serverOptions c) (VSCode.clientOptions c) ∈ calls (VSCode.activate raises s) /\
  VSCode.start c ∈ calls (VSCode.activate raises s).
Proof.
  intros Hq c. destruct (VSCodeFacts.activate_complete raises s Hq) as [_ ->].
  unfold VSCode.activate_script. split.
  - do 3 apply list_elem_of_further. apply list_elem_of_here.
  - do 4 apply list_elem_of_further. apply list_elem_of_here.
Qed.




(** C4, as worded, fails for VS Code: the executables have no [args],
    but their transport is stdio and the client library appends
    [--stdio], so the server is not launched with an empty argument
    list. *)
Lemma vscode_passes_the_stdio_flag :
  ~ vscode_spawns_alone (VSCode.activate quiet VSCode.configured).
Proof.
  intros (c & Hc & _ & _ & Hargs).
  destruct (Hargs "") as [Hrun _].
  apply VSCodeFacts.in_activate_script in Hc. unfold VSCode.activate_script in Hc.
  rewrite !elem_of_cons in Hc.
  destruct Hc as [Hc|[Hc|[Hc|[Hc|[Hc|Hc]]]]]; try discriminate Hc.
  - injection Hc as ->. discriminate Hrun.
  - by apply elem_of_nil in Hc.
Qed.

(** C4, amended: in the Lua and the Emacs snippet the command is the
    path of the binary and nothing else (a one-element list, a single
    string); in VS Code the executables have no [args], for run and for
    debug, and the flag of their transport, [--stdio], is the one
    argument the server is launched with. *)
Theorem snippets_spawn_the_binary_with_the_stdio_flag_at_most
    (rn : Neovim.call -> option exn) (re : Emacs.call -> option exn)
    (rv : VSCode.call -> option exn)
    (sn : Neovim.nvim) (se : Emacs.emacs) (sv : VSCode.session) :
  (forall c, rn c = None) ->
  (forall c, re c = None) ->
  (forall c, rv c = None) ->
  Neovim.registry sn !! "k" = None ->
  neovim_spawns_alone (Neovim.example_lua rn sn) /\
  neovim_spawns_alone (Neovim.readme_lua rn sn) /\
  emacs_spawns_alone (Emacs.emacs_snippet re se) /\
  vscode_spawns_with_stdio_flag (VSCode.activate rv sv).
Proof.
  intros Hn He Hv Hk. repeat split.
  - destruct (lua_registered rn sn (Neovim.example_lua rn)) as (root & l & ->); auto.
    exists (Neovim.k_definition root), "PATH_TO_KLSP". cbn [final].
    split; [apply NeovimFacts.registered_k_lookup|].
    split; [apply NeovimFacts.registered_k_manager | done].
  - destruct (lua_registered rn sn (Neovim.readme_lua rn)) as (root & l & ->); auto.
    exists (Neovim.k_definition root), "PATH_TO_KLSP". cbn [final].
    split; [apply NeovimFacts.registered_k_lookup|].
    split; [apply NeovimFacts.registered_k_manager | done].
  - destruct (EmacsFacts.emacs_snippet_complete re se He)
      as (_ & (_ & _ & _ & _ & _ & _ & Hclient & _) & _).
    exists Emacs.klsp_client, "path-to-klsp-binary". by repeat split.
  - destruct (started_client rv sv Hv) as [_ Hstart].
    eexists. split; [exact Hstart|]. by repeat split.
Qed.

Lemma snippets_spawn_the_binary_with_the_stdio_flag_at_most_witness :
  Neovim.registry Neovim.stock !! "k" = None /\
  neovim_spawns_alone (Neovim.example_lua quiet Neovim.stock) /\
  neovim_spawns_alone (Neovim.readme_lua quiet Neovim.stock) /\
  emacs_spawns_alone (Emacs.emacs_snippet quiet Emacs.fresh) /\
  vscode_spawns_with_stdio_flag (VSCode.activate quiet VSCode.configured).
Proof.
  split; [reflexivity|].
  apply (snippets_spawn_the_binary_with_the_stdio_flag_at_most quiet quiet quiet
           Neovim.stock Emacs.fresh VSCode.configured);
    first [ intros c; reflexivity | reflexivity ].
Defined.




End GlueFacts.

Module LifecycleFacts.
Import VSCode Sessions.

Ltac run_activate raises :=
  unfold activate, bind, invoke, ret, construct; reduce_run; split_on raises.

Ltac case_elem H :=
  repeat first
    [ apply elem_of_nil in H; destruct H
    | apply elem_of_cons in H as [H|H]; [try discriminate H|] ].

Lemma activate_settings raises s :
  settings (final (activate raises s)) = settings s.
Proof. run_activate raises; reflexivity. Qed.

Lemma activate_calls_no_stop raises s :
  Forall (fun c => is_stop c = false) (calls (activate raises s)).
Proof. run_activate raises; repeat constructor. Qed.

Lemma deactivate_unset raises s :
  module_client s = None -> deactivate raises s = Run (Returned None) s [].
Proof. intros Hm. unfold deactivate, bind, peek. by rewrite Hm. Qed.

Lemma serve_keeps_unset raises q s :
  module_client s = None ->
  module_client (fst (serve raises q s)) = None /\
  settings (fst (serve raises q s)) = settings s /\
  Forall (fun c => is_stop c = false) (snd (serve raises q s)).
Proof.
  intros Hm. destruct q; cbn [serve fst snd].
  - rewrite VSCodeFacts.activate_module_client, activate_settings.
    split; [exact Hm|]. split; [reflexivity | apply activate_calls_no_stop].
  - rewrite (deactivate_unset raises s Hm). cbn [final calls]. by repeat split.
Qed.

(** X1: however the editor interleaves [activate] and [deactivate] on a
    freshly loaded module, and whatever the library does, the
    module-level variable stays undefined, the settings stay as they
    were, and [LanguageClient.stop] is never called. *)
Theorem extension_never_stops_a_client raises (qs : list request) (s : session) :
  module_client s = None ->
  module_client (fst (serve_all raises qs s)) = None /\
  settings (fst (serve_all raises qs s)) = settings s /\
  Forall (fun c => is_stop c = false) (snd (serve_all raises qs s)).
Proof.
  revert s. induction qs as [|q qs IH]; intros s Hm; cbn [serve_all].
  - by repeat split.
  - destruct (serve_keeps_unset raises q s Hm) as (Hm1 & Hs1 & Hc1).
    destruct (serve raises q s) as [s1 l1]. cbn [fst snd] in *.
    destruct (IH s1 Hm1) as (Hm2 & Hs2 & Hc2).
    destruct (serve_all raises qs s1) as [s2 l2]. cbn [fst snd] in *.
    split; [exact Hm2|]. split; [congruence | by apply Forall_app].
Qed.

Lemma extension_never_stops_a_client_witness :
  module_client configured = None /\
  module_client (fst (serve_all quiet [ Activate; Deactivate; Activate; Deactivate ]
                        configured)) = None /\
  settings (fst (serve_all quiet [ Activate; Deactivate; Activate; Deactivate ]
                   configured)) = settings configured /\
  Forall (fun c => is_stop c = false)
    (snd (serve_all quiet [ Activate; Deactivate; Activate; Deactivate ] configured)).
Proof.
  split; [reflexivity|].
  apply (extension_never_stops_a_client quiet
           [ Activate; Deactivate; Activate; Deactivate ] configured).
  reflexivity.
Defined.

(** X2: whatever the library does, one run of [activate] starts at most one
    client, and only the client it has constructed in that run (the
    constructor call is in the log and the session counts one more
    client); it never changes the settings, and it never constructs
    more than one client. *)
Theorem activate_starts_only_what_it_constructed raises (s : session) :
  let r := activate raises s in
  length (List.filter is_start (calls r)) <= 1 /\
  (forall c, start c ∈ calls r ->
     serial c = constructed s /\
     new_LanguageClient (id c) (name c) (serverOptions c) (clientOptions c) ∈ calls r /\
     constructed (final r) = S (constructed s)) /\
  settings (final r) = settings s /\
  length (List.filter is_new (calls r)) <= 1 /\
  constructed s <= constructed (final r) <= S (constructed s).
Proof.
  cbv zeta. run_activate raises;
    (split; [cbn; lia|]; split;
     [ intros c Hc; case_elem Hc
     | split; [reflexivity|]; split; [cbn; lia | cbn [constructed]; lia] ]).
  - injection Hc as ->. cbn [serial id name serverOptions clientOptions constructed].
    split; [reflexivity|]. split; [|reflexivity].
    do 3 apply list_elem_of_further. apply list_elem_of_here.
  - injection Hc as ->. cbn [serial id name serverOptions clientOptions constructed].
    split; [reflexivity|]. split; [|reflexivity].
    do 3 apply list_elem_of_further. apply list_elem_of_here.
Qed.

(** X3: [deactivate] does not reset the module-level variable: where it
    holds a client and [stop] returns, a second [deactivate] stops the
    same client again and returns its promise, and the session is as
    before. *)
Theorem deactivate_does_not_clear_the_client raises (s : session) (c : LanguageClient) :
  module_client s = Some c ->
  raises (stop c) = None ->
  deactivate_twice raises s = Run (Returned (Some (StopPromise c))) s [ stop c; stop c ].
Proof.
  intros Hm Hq. unfold deactivate_twice, deactivate, bind, peek, invoke, ret.
  rewrite Hm, Hq. cbn [result final calls fst snd app]. rewrite Hm, Hq. reflexivity.
Qed.

Lemma deactivate_does_not_clear_the_client_witness :
  let c := fst (construct "klsp" "K Language Server" (make_serverOptions None)
                  (make_clientOptions (Watcher "**/.clientrc")) unconfigured) in
  module_client holding = Some c /\
  quiet (stop c) = None /\
  deactivate_twice quiet holding
  = Run (Returned (Some (StopPromise c))) holding [ stop c; stop c ].
Proof.
  intros c. split; [reflexivity|]. split; [reflexivity|].
  apply (deactivate_does_not_clear_the_client quiet holding c); reflexivity.
Defined.

(** X4: every client [activate] constructs, on any library, is named
    [klsp] / [K Language Server] and synchronizes on the watcher for
    [**/.clientrc]; by then the settings were fetched, [klsp.path] was
    read and that watcher was created, in this order and with nothing
    in between. *)
Theorem every_client_watches_clientrc raises (s : session)
    (i n : string) (so : ServerOptions) (co : LanguageClientOptions) :
  new_LanguageClient i n so co ∈ calls (activate raises s) ->
  i = "klsp" /\ n = "K Language Server" /\
  fileEvents (synchronize co) = Watcher "**/.clientrc" /\
  exists after,
    calls (activate raises s)
    = [ getConfiguration; get "klsp.path"; createFileSystemWatcher "**/.clientrc";
        new_LanguageClient i n so co ] ++ after.
Proof.
  run_activate raises; intros Hc; case_elem Hc;
    injection Hc as -> -> -> ->; (do 3 (split; [reflexivity|])).
  - by exists [].
  - by eexists [_].
  - by eexists [_].
Qed.

Lemma every_client_watches_clientrc_witness :
  let so := make_serverOptions (Some "/usr/local/bin/klsp") in
  let co := make_clientOptions (Watcher "**/.clientrc") in
  new_LanguageClient "klsp" "K Language Server" so co ∈ calls (activate quiet configured) /\
  "klsp" = "klsp" /\ "K Language Server" = "K Language Server" /\
  fileEvents (synchronize co) = Watcher "**/.clientrc" /\
  exists after,
    calls (activate quiet configured)
    = [ getConfiguration; get "klsp.path"; createFileSystemWatcher "**/.clientrc";
        new_LanguageClient "klsp" "K Language Server" so co ] ++ after.
Proof.
  intros so co.
  assert (new_LanguageClient "klsp" "K Language Server" so co
          ∈ calls (activate quiet configured)) as Hc.
  { do 3 apply list_elem_of_further. apply list_elem_of_here. }
  split; [exact Hc|].
  exact (every_client_watches_clientrc quiet configured _ _ so co Hc).
Defined.

End LifecycleFacts.
Module EmacsReloadFacts.
Import Emacs Sessions EmacsFacts.

Ltac run_snippet := unfold emacs_snippet, require_; execute; tidy_emacs.

(** X5: evaluating the snippet a second time, in a library where every
    call returns, changes nothing: the state is the one the first
    evaluation left, and the second evaluation makes the ten calls of
    the snippet without refreshing the archives or installing again. *)
Theorem reevaluating_the_snippet_changes_nothing raises (s : emacs) :
  (forall c, raises c = None) ->
  let once := emacs_snippet raises s in
  let twice := emacs_snippet_twice raises s in
  result twice = Returned tt /\
  final twice = final once /\
  map callee (calls twice)
  = map callee (calls once)
    ++ [ "require"; "add-to-list"; "package-initialize"; "package-installed-p";
         "require"; "add-to-list"; "lsp-stdio-connection"; "make-lsp-client";
         "lsp-register-client"; "add-hook" ].
Proof.
  intros Hq once twice. subst once twice.
  destruct (emacs_snippet_complete raises s Hq) as (Hr & Hsettled & _).
  unfold emacs_snippet_twice. rewrite (bind_returned _ _ s tt Hr). cbn [result final calls].
  split; [apply (emacs_snippet_quiet raises _ Hq)|].
  split; [apply (emacs_snippet_settled raises _ Hq Hsettled)|].
  rewrite map_app. f_equal.
  rewrite (emacs_snippet_callees_of raises _ Hq).
  destruct Hsettled as (_ & _ & _ & _ & Hin & _).
  by rewrite (bool_decide_eq_true_2 _ Hin).
Qed.

Lemma reevaluating_the_snippet_changes_nothing_witness :
  let once := emacs_snippet quiet fresh in
  let twice := emacs_snippet_twice quiet fresh in
  result twice = Returned tt /\
  final twice = final once /\
  map callee (calls twice)
  = map callee (calls once)
    ++ [ "require"; "add-to-list"; "package-initialize"; "package-installed-p";
         "require"; "add-to-list"; "lsp-stdio-connection"; "make-lsp-client";
         "lsp-register-client"; "add-hook" ].
Proof.
  apply (reevaluating_the_snippet_changes_nothing quiet fresh). intros c; reflexivity.
Defined.

(** X6: on any library, a run that returns leaves an Emacs in which the
    snippet has nothing left to do (package and lsp-mode loaded, melpa
    among the archives, lsp-mode installed, the id filed, the client
    under [klsp], [lsp] on the hook), and a run that raises, at
    whatever call, leaves [k-mode-hook] as it was. *)
Theorem hook_is_added_by_complete_runs_only raises (s : emacs) :
  match result (emacs_snippet raises s) with
  | Returned _ => settled (final (emacs_snippet raises s))
  | Thrown _ => k_mode_hook (final (emacs_snippet raises s)) = k_mode_hook s
  end.
Proof.
  apply (hoare_run s (emacs_snippet raises) (fun _ => settled)
           (fun s' => k_mode_hook s' = k_mode_hook s)).
  run_snippet; try reflexivity; unfold settled; tidy_emacs.
  - apply bool_decide_eq_true_1 in Heqb.
    repeat split; first
      [ apply required_keeps_features; tidy_emacs; apply required_provides
      | apply required_provides | apply added_elem | exact Heqb | apply lookup_insert_eq ].
  - repeat split; first
      [ apply required_keeps_features; tidy_emacs; apply required_provides
      | apply required_provides | apply added_elem | apply install_installs
      | apply lookup_insert_eq ].
Qed.


Ltac keep_language_ids Hx :=
  repeat first
    [ exact Hx | apply added_keeps | apply required_keeps_language_ids; tidy_emacs ].


(** X8: the snippet files a language id under the key [k-language] and
    under no other, on any library.  Under any other major mode,
    [k-mode] of the client included, [lsp-language-id-configuration]
    keeps the entries it had, and an entry it has after the run was
    there before or is one that the file of [package] or of [lsp-mode]
    gives the variable when [require] loads it. *)
Theorem language_id_is_filed_under_k_language_only raises (s : emacs)
    (mode id : string) :
  mode <> "k-language" ->
  let s' := final (emacs_snippet raises s) in
  ((mode, id) ∈ lsp_language_id_configuration s ->
   (mode, id) ∈ lsp_language_id_configuration s') /\
  ((mode, id) ∈ lsp_language_id_configuration s' ->
   (mode, id) ∈ lsp_language_id_configuration s \/
   (mode, id) ∈ load_language_ids s "package" \/
   (mode, id) ∈ load_language_ids s "lsp-mode").
Proof.
  intros Hmode.
  set (I := fun s' : emacs =>
    ((mode, id) ∈ lsp_language_id_configuration s ->
     (mode, id) ∈ lsp_language_id_configuration s') /\
    ((mode, id) ∈ lsp_language_id_configuration s' ->
     (mode, id) ∈ lsp_language_id_configuration s \/
     (mode, id) ∈ load_language_ids s "package" \/
     (mode, id) ∈ load_language_ids s "lsp-mode")).
  cbv zeta. change (I (final (emacs_snippet raises s))).
  assert (match result (emacs_snippet raises s) with
          | Returned _ => I (final (emacs_snippet raises s))
          | Thrown _ => I (final (emacs_snippet raises s))
          end) as H; [|by destruct (result (emacs_snippet raises s))].
  apply (hoare_run s (emacs_snippet raises) (fun _ => I) I).
  unfold emacs_snippet, require_; execute; unfold I; tidy_emacs;
    (split; [intros Hx; keep_language_ids Hx|]); intros Hx;
    try (apply elem_added in Hx as [[= -> ->]|Hx]; [done|]);
    repeat (apply required_language_ids_from in Hx as [Hx|Hx]; tidy_emacs); tauto.
Qed.

Lemma language_id_is_filed_under_k_language_only_witness :
  "k-mode" <> "k-language" /\
  let s' := final (emacs_snippet quiet fresh) in
  (("k-mode", "k") ∈ lsp_language_id_configuration fresh ->
   ("k-mode", "k") ∈ lsp_language_id_configuration s') /\
  (("k-mode", "k") ∈ lsp_language_id_configuration s' ->
   ("k-mode", "k") ∈ lsp_language_id_configuration fresh \/
   ("k-mode", "k") ∈ load_language_ids fresh "package" \/
   ("k-mode", "k") ∈ load_language_ids fresh "lsp-mode").
Proof.
  split; [discriminate|].
  apply (language_id_is_filed_under_k_language_only quiet fresh "k-mode" "k").
  discriminate.
Defined.

(** X9: on any library, a client is registered only in an Emacs where
    lsp-mode is installed and loaded, and [lsp] is put on the hook only
    after the client is registered. *)
Theorem registration_follows_installation raises (s : emacs) :
  let s' := final (emacs_snippet raises s) in
  (lsp_clients s' = lsp_clients s \/
   "lsp-mode" ∈ installed s' /\ "lsp-mode" ∈ features s') /\
  (k_mode_hook s' = k_mode_hook s \/ lsp_clients s' !! "klsp" = Some klsp_client).
Proof.
  set (I := fun s' : emacs =>
    (lsp_clients s' = lsp_clients s \/
     "lsp-mode" ∈ installed s' /\ "lsp-mode" ∈ features s') /\
    (k_mode_hook s' = k_mode_hook s \/ lsp_clients s' !! "klsp" = Some klsp_client)).
  cbv zeta. change (I (final (emacs_snippet raises s))).
  assert (match result (emacs_snippet raises s) with
          | Returned _ => I (final (emacs_snippet raises s))
          | Thrown _ => I (final (emacs_snippet raises s))
          end) as H; [|by destruct (result (emacs_snippet raises s))].
  apply (hoare_run s (emacs_snippet raises) (fun _ => I) I).
  unfold emacs_snippet, require_; execute; unfold I; tidy_emacs;
    try (split; by left).
  all: split; [right | first [by left | right; by rewrite lookup_insert_eq]].
  all: split; [| apply required_provides].
  all: first [ by apply bool_decide_eq_true_1 in Heqb | apply install_installs ].
Qed.

End EmacsReloadFacts.
Module NeovimReloadFacts.
Import Neovim Sessions NeovimFacts.

Ltac step_assign :=
  match goal with
  | |- hoare (eq ?s0) (bind (assign_k ?r ?def) _) _ _ =>
      let H := fresh "Hk" in
      destruct (registry s0 !! "k") eqn:H;
      [ apply hoare_from_same with (m' := update (overwrite "k" def));
        [unfold assign_k; by rewrite H|]
      | apply hoare_from_same
          with (m' := invoke r (configs_newindex "k" def) (register "k" def));
        [unfold assign_k; by rewrite H|] ]
  end.

Ltac step_index :=
  match goal with
  | |- hoare _ (match ?e with Absent => _ | PlainTable => _ | ServerObject => _ end) _ _ =>
      destruct e eqn:?
  end.

Ltac execute_lua :=
  unfold example_lua, readme_lua, setup_k;
  repeat first [ progress execute | step_assign | step_index ];
  reduce_lua.

(** X10: on any library, either copy of the snippet touches the registry
    under [k] only: every other server definition stays as it was,
    earlier [setup] records stay in front, and the exports of
    [lspconfig/util] are not changed. *)
Theorem other_servers_are_left_alone raises (s : nvim) (snippet : M unit) (name : string) :
  snippet = example_lua raises \/ snippet = readme_lua raises ->
  name <> "k" ->
  registry (final (snippet s)) !! name = registry s !! name /\
  set_up s `prefix_of` set_up (final (snippet s)) /\
  util_exports (final (snippet s)) = util_exports s.
Proof.
  intros Hsnippet Hname.
  set (I := fun s' : nvim =>
    registry s' !! name = registry s !! name /\
    set_up s `prefix_of` set_up s' /\
    util_exports s' = util_exports s).
  change (I (final (snippet s))).
  assert (match result (snippet s) with
          | Returned _ => I (final (snippet s))
          | Thrown _ => I (final (snippet s))
          end) as H; [|by destruct (result (snippet s))].
  apply (hoare_run s snippet (fun _ => I) I).
  destruct Hsnippet as [-> | ->]; execute_lua; unfold I; reduce_lua;
    (split; [by rewrite ?lookup_insert_ne|]);
    (split; [first [done | by apply prefix_app_r]|]); reflexivity.
Qed.

Lemma other_servers_are_left_alone_witness :
  "lua_ls" <> "k" /\
  registry (final (example_lua quiet with_other_server)) !! "lua_ls"
  = registry with_other_server !! "lua_ls" /\
  set_up with_other_server `prefix_of` set_up (final (example_lua quiet with_other_server)) /\
  util_exports (final (example_lua quiet with_other_server))
  = util_exports with_other_server.
Proof.
  split; [discriminate|].
  apply (other_servers_are_left_alone quiet with_other_server (example_lua quiet) "lua_ls");
    [left; reflexivity | discriminate].
Defined.










End NeovimReloadFacts.
